(** * ShowMnemonic: the mnemonic toggle of the wallet's account list

    A shallow embedding of
    [nym-wallet/src/components/Accounts/ShowMnemonic.tsx]: the lookup
    [fetchMnemonic], the two pieces of component state, the click handler,
    the effect that depends on [showMnemonic], and the rendered children.

    The component runs on the JavaScript event loop.  The model keeps the
    two queues that the source fills: the timers set by [setTimeout] and
    the microtasks that resume an [await].  One step of the model is one
    task of the loop (a click, or a timer that fires) followed by the
    microtask checkpoint that ends every task.  The render caused by a
    click and the effect of that render belong to the click's task. *)

From Stdlib Require Import String List Bool.
From Stdlib Require Import Arith Lia.
Import ListNotations.
Local Open Scope string_scope.

(** ** JavaScript values *)

(** Truthiness of a [string | undefined]: [undefined] and the empty
    string are falsy, every other string is truthy. *)
Definition truthy (v : option string) : bool :=
  match v with
  | Some s => negb (s =? "")
  | None => false
  end.

(** [Object.is] on [string | undefined]: React compares a new state with
    the old one, and the dependencies of an effect, with it. *)
Definition object_is (a b : option string) : bool :=
  match a, b with
  | Some x, Some y => x =? y
  | None, None => true
  | _, _ => false
  end.

(** ** The accounts table

    [./mocks] is not part of the sources; [fetchMnemonic] reads the
    fields [name] and [mnemonic] of its records, and the table itself is a
    parameter of everything below. *)
Module Mocks.
Record Account := { name : string; mnemonic : string }.
End Mocks.

(** The table of the scenarios: ["alice"] has a record, ["ghost"] has none. *)
Definition scenario_accounts : list Mocks.Account :=
  [ {| Mocks.name := "alice"; Mocks.mnemonic := "apple banana cherry" |} ].

(** ** Promises

    How the executor of a [new Promise] settles it: [res] called inside
    the executor, [res] called later by a [setTimeout(..., 0)] callback, or
    a rejection (an executor that throws, or a call of the second
    argument). *)
Inductive promise : Type :=
| Resolved (v : string)
| Scheduled (v : string)
| Rejected (reason : string).

(** The promise is fulfilled with [v], now or after its timer. *)
Inductive resolves_with : promise -> string -> Prop :=
| resolves_now v : resolves_with (Resolved v) v
| resolves_later v : resolves_with (Scheduled v) v.

Definition rejects (p : promise) : Prop := exists reason, p = Rejected reason.

(** [fetchMnemonic], lines 5-10: [accounts.find] returns the first record
    whose name is [accountName]; a record is an object, hence truthy. *)
Definition find_account (accounts : list Mocks.Account) (accountName : string)
  : option Mocks.Account :=
  find (fun acc => Mocks.name acc =? accountName) accounts.

Definition fetchMnemonic (accounts : list Mocks.Account) (accountName : string)
  : promise :=
  match find_account accounts accountName with
  | Some account => Scheduled (Mocks.mnemonic account)
  | None => Resolved "n/a"
  end.

(** ** Component state and the event loop *)

(** The two [useState] cells, and the two queues of the loop: [timers]
    holds the values [v] of the pending callbacks [() => res(v)], oldest
    first; [microtasks] holds the values with which a suspended
    [getMnemonic] resumes, that is, the pending calls [setMnemonic(v)]. *)
Record state : Type := {
  showMnemonic : option string;
  mnemonic : option string;
  timers : list string;
  microtasks : list string
}.

Definition setShowMnemonic (v : option string) (st : state) : state :=
  {| showMnemonic := v; mnemonic := mnemonic st;
     timers := timers st; microtasks := microtasks st |}.

Definition setMnemonic (v : option string) (st : state) : state :=
  {| showMnemonic := showMnemonic st; mnemonic := v;
     timers := timers st; microtasks := microtasks st |}.

Definition setTimers (ts : list string) (st : state) : state :=
  {| showMnemonic := showMnemonic st; mnemonic := mnemonic st;
     timers := ts; microtasks := microtasks st |}.

Definition setMicrotasks (ms : list string) (st : state) : state :=
  {| showMnemonic := showMnemonic st; mnemonic := mnemonic st;
     timers := timers st; microtasks := ms |}.

Definition setTimeout (v : string) (st : state) : state :=
  setTimers (timers st ++ [v]) st.

Definition queueMicrotask (v : string) (st : state) : state :=
  setMicrotasks (microtasks st ++ [v]) st.

(** The microtask checkpoint: every queued continuation runs, in order;
    each one is [setMnemonic(mnic)] and queues nothing. *)
Fixpoint drain (ms : list string) (st : state) : state :=
  match ms with
  | [] => st
  | mnic :: ms' => drain ms' (setMnemonic (Some mnic) st)
  end.

Definition checkpoint (st : state) : state :=
  drain (microtasks st) (setMicrotasks [] st).

(** The synthetic event handed to [onClick]. *)
Record MouseEvent : Type := { propagationStopped : bool }.

Definition stopPropagation (e : MouseEvent) : MouseEvent :=
  {| propagationStopped := true |}.

Definition click_event : MouseEvent := {| propagationStopped := false |}.

(** The tasks of the loop that reach the component. *)
Inductive event : Type :=
| Click
| Timeout.

(** What the component renders into its [Box]: the value of each child
    expression.  The [sx] and [onClick] props of the label are the same in
    every render and are left out. *)
Inductive variant : Type := body2 | caption.

Inductive child : Type :=
| JsUndefined
| JsString (s : string)
| Typography (v : variant) (text : string).

(** [a && b] on a [string | undefined] left operand: a falsy [a] is the
    value of the expression. *)
Definition jsx_and (a : option string) (b : string -> child) : child :=
  match a with
  | None => JsUndefined
  | Some s => if s =? "" then JsString s else b s
  end.

(** React mounts nothing for [undefined] and for the empty string. *)
Definition mounted (c : child) : bool :=
  match c with
  | JsUndefined => false
  | JsString s => negb (s =? "")
  | Typography _ _ => true
  end.

Section Component.

Variable accounts : list Mocks.Account.
Variable accountName : string.

(** [getMnemonic], lines 17-20: [await] suspends; the continuation
    [setMnemonic(mnic)] is queued as a microtask once the promise is
    fulfilled, which for a scheduled promise is when its timer fires.
    On a rejected promise the [await] throws and [setMnemonic] is not
    called. *)
Definition getMnemonic (st : state) : state :=
  match fetchMnemonic accounts accountName with
  | Resolved mnic => queueMicrotask mnic st
  | Scheduled mnic => setTimeout mnic st
  | Rejected _ => st
  end.

(** The effect, lines 22-23. *)
Definition effect (st : state) : state :=
  if truthy (showMnemonic st) then getMnemonic st
  else setMnemonic None st.

(** The updater passed to [setShowMnemonic], line 33. *)
Definition toggle (show : option string) : option string :=
  if negb (truthy show) then Some accountName else None.

(** The click handler, lines 31-34. *)
Definition onClick (e : MouseEvent) (st : state) : MouseEvent * state :=
  (stopPropagation e, setShowMnemonic (toggle (showMnemonic st)) st).

(** React after a handler: the effect runs when its dependency
    [showMnemonic] is not [Object.is]-equal to that of the previous
    render. *)
Definition commit (prev next : state) : state :=
  if object_is (showMnemonic prev) (showMnemonic next) then next
  else effect next.

Definition initial : state :=
  {| showMnemonic := None; mnemonic := None; timers := []; microtasks := [] |}.

(** Mounting: the first render, then the effect, which always runs
    after the first render. *)
Definition mount : state := checkpoint (effect initial).

Definition click (e : MouseEvent) (st : state) : state :=
  checkpoint (commit st (snd (onClick e st))).

(** The oldest timer fires: [res(v)] fulfils the promise and the
    suspended [getMnemonic] is queued. *)
Definition fire (v : string) (rest : list string) (st : state) : state :=
  checkpoint (queueMicrotask v (setTimers rest st)).

(** One task of the loop, as a relation. *)
Inductive step : state -> event -> state -> Prop :=
| step_click st e :
    step st Click (click e st)
| step_timeout st v rest :
    timers st = v :: rest ->
    step st Timeout (fire v rest st).

Inductive run : state -> list event -> state -> Prop :=
| run_nil st : run st [] st
| run_cons st e st' evs st'' :
    step st e st' -> run st' evs st'' -> run st (e :: evs) st''.

Definition reachable (st : state) : Prop := exists evs, run mount evs st.

(** The same loop as a function; [None] when a [Timeout] is asked for
    and no timer is pending. *)
Definition next (e : event) (st : state) : option state :=
  match e with
  | Click => Some (click click_event st)
  | Timeout =>
      match timers st with
      | [] => None
      | v :: rest => Some (fire v rest st)
      end
  end.

Fixpoint exec (evs : list event) (st : state) : option state :=
  match evs with
  | [] => Some st
  | e :: evs' =>
      match next e st with
      | Some st' => exec evs' st'
      | None => None
      end
  end.

(** Lookups complete until none is in flight; no click arrives. *)
Fixpoint settle_timers (ts : list string) (st : state) : state :=
  match ts with
  | [] => st
  | v :: rest => settle_timers rest (fire v rest st)
  end.

Definition settle (st : state) : state := settle_timers (timers st) st.

(** *** Rendering, lines 26-40 *)

Definition label (st : state) : string :=
  (if truthy (showMnemonic st) then "Hide" else "Show") ++ " mnemonic".

Definition render (st : state) : list child :=
  [ Typography body2 (label st);
    jsx_and (mnemonic st) (Typography caption) ].

Definition output (st : state) : list child := filter mounted (render st).

End Component.

(** ** Event propagation

    A click on the label bubbles to the handlers of its ancestors, nearest
    first, until a handler has stopped the propagation.  [W] is whatever
    state those handlers act on. *)
Section Bubbling.

Variable W : Type.

Definition handler : Type := MouseEvent -> W -> MouseEvent * W.

Fixpoint bubble (e : MouseEvent) (ancestors : list handler) (w : W) : W :=
  match ancestors with
  | [] => w
  | h :: above =>
      if propagationStopped e then w
      else let (e', w') := h e w in bubble e' above w'
  end.

(** A click on the label of a component in state [st]. *)
Definition dispatch (accountName : string) (st : state)
    (ancestors : list handler) (w : W) : state * W :=
  let (e, st') := onClick accountName click_event st in
  (st', bubble e ancestors w).

End Bubbling.

(** A table whose only record holds the empty string as mnemonic. *)
Definition blank_accounts : list Mocks.Account :=
  [ {| Mocks.name := "alice"; Mocks.mnemonic := "" |} ].

(** The component of ["alice"] after the click that reveals, its lookup
    in flight. *)
Definition alice_revealing : state :=
  {| showMnemonic := Some "alice"; mnemonic := None;
     timers := ["apple banana cherry"]; microtasks := [] |}.

(** What a lookup for [accountName] can depend on in a table: the
    mnemonic of the first record of that name, if there is one. *)
Definition first_mnemonic (accounts : list Mocks.Account)
    (accountName : string) : option string :=
  option_map Mocks.mnemonic
    (hd_error (filter (fun acc => Mocks.name acc =? accountName) accounts)).

(** A second table, with a record of another name before the record of
    ["alice"]. *)
Definition crowded_accounts : list Mocks.Account :=
  {| Mocks.name := "bob"; Mocks.mnemonic := "kiwi lemon mango" |}
    :: scenario_accounts.

(** ** Properties of a component, as predicates *)

(** A click, followed by whatever tasks come after it, shows [text] in
    the caption under the label. *)
Definition click_eventually_displays (accounts : list Mocks.Account)
    (accountName text : string) : Prop :=
  exists evs st,
    run accounts accountName (mount accounts accountName) (Click :: evs) st
    /\ In (Typography caption text) (output st).

(** The label tells whether the flag holds a value. *)
Definition label_follows_presence (accounts : list Mocks.Account)
    (accountName : string) : Prop :=
  forall st,
    reachable accounts accountName st ->
    (showMnemonic st = None -> label st = "Show mnemonic")
    /\ (showMnemonic st <> None -> label st = "Hide mnemonic").

(** A click sets an absent flag to the account name and a present flag
    to absent. *)
Definition click_toggles_presence (accounts : list Mocks.Account)
    (accountName : string) : Prop :=
  forall st st',
    reachable accounts accountName st ->
    step accounts accountName st Click st' ->
    (showMnemonic st = None -> showMnemonic st' = Some accountName)
    /\ (showMnemonic st <> None -> showMnemonic st' = None).

(** ** Counting the tasks of a run *)

Definition is_click (e : event) : bool :=
  match e with
  | Click => true
  | Timeout => false
  end.

Definition clicks (evs : list event) : nat :=
  length (filter is_click evs).

Definition timeouts (evs : list event) : nat :=
  length (filter (fun e => negb (is_click e)) evs).

(** The states a user reaches who clicks only while no lookup is in
    flight. *)
Inductive patient (accounts : list Mocks.Account) (accountName : string)
  : state -> Prop :=
| patient_mount : patient accounts accountName (mount accounts accountName)
| patient_click st e :
    patient accounts accountName st ->
    timers st = [] ->
    patient accounts accountName (click accounts accountName e st)
| patient_timeout st st' :
    patient accounts accountName st ->
    step accounts accountName st Timeout st' ->
    patient accounts accountName st'.

(** ** The scenarios, run *)

Example alice_reveals :
  option_map output
    (exec scenario_accounts "alice" [Click; Timeout]
       (mount scenario_accounts "alice"))
  = Some [Typography body2 "Hide mnemonic";
          Typography caption "apple banana cherry"].
Proof. reflexivity. Qed.

Example alice_hides_again :
  option_map output
    (exec scenario_accounts "alice" [Click; Timeout; Click]
       (mount scenario_accounts "alice"))
  = Some [Typography body2 "Show mnemonic"].
Proof. reflexivity. Qed.

Example ghost_reveals :
  option_map output
    (exec scenario_accounts "ghost" [Click] (mount scenario_accounts "ghost"))
  = Some [Typography body2 "Hide mnemonic"; Typography caption "n/a"].
Proof. reflexivity. Qed.

Example ghost_has_no_timer :
  exec scenario_accounts "ghost" [Click; Timeout]
    (mount scenario_accounts "ghost") = None.
Proof. reflexivity. Qed.

(** An event that no handler has stopped does reach an ancestor. *)
Example unstopped_click_bubbles :
  bubble nat click_event [fun e n => (e, S n)] 0 = 1.
Proof. reflexivity. Qed.

(** ** Queues and state cells *)

Lemma drain_showMnemonic ms st :
  showMnemonic (drain ms st) = showMnemonic st.
Proof.
  revert st; induction ms as [|v ms IH]; intro st; simpl; [reflexivity|].
  now rewrite IH.
Qed.

Lemma drain_timers ms st : timers (drain ms st) = timers st.
Proof.
  revert st; induction ms as [|v ms IH]; intro st; simpl; [reflexivity|].
  now rewrite IH.
Qed.

Lemma drain_microtasks ms st : microtasks (drain ms st) = microtasks st.
Proof.
  revert st; induction ms as [|v ms IH]; intro st; simpl; [reflexivity|].
  now rewrite IH.
Qed.

Lemma drain_last ms v st : mnemonic (drain (ms ++ [v]) st) = Some v.
Proof.
  revert st; induction ms as [|w ms IH]; intro st; simpl; [reflexivity|].
  apply IH.
Qed.

Lemma checkpoint_showMnemonic st :
  showMnemonic (checkpoint st) = showMnemonic st.
Proof. unfold checkpoint. now rewrite drain_showMnemonic. Qed.

Lemma checkpoint_timers st : timers (checkpoint st) = timers st.
Proof. unfold checkpoint. now rewrite drain_timers. Qed.

Lemma checkpoint_microtasks st : microtasks (checkpoint st) = [].
Proof. unfold checkpoint. now rewrite drain_microtasks. Qed.

Lemma checkpoint_idle st : microtasks st = [] -> checkpoint st = st.
Proof. destruct st; simpl; intros ->; reflexivity. Qed.

Lemma truthy_true v :
  truthy v = true <-> exists s, v = Some s /\ s <> "".
Proof.
  destruct v as [s|]; simpl.
  - destruct (String.eqb_spec s ""); simpl; split.
    + discriminate.
    + intros (s' & [= <-] & Hs); contradiction.
    + intros _; now exists s.
    + reflexivity.
  - split; [discriminate | intros (s & [=] & _)].
Qed.

Lemma truthy_false v : truthy v = false <-> v = None \/ v = Some "".
Proof.
  destruct v as [s|]; simpl.
  - destruct (String.eqb_spec s ""); simpl; split.
    + intros _; right; now subst.
    + reflexivity.
    + discriminate.
    + intros [[=] | [= ->]]; contradiction.
  - split; [now left | reflexivity].
Qed.

Lemma object_is_eq a b : object_is a b = true <-> a = b.
Proof.
  destruct a as [x|], b as [y|]; simpl; split;
    try discriminate; try reflexivity.
  - intros H; apply String.eqb_eq in H; now subst.
  - intros [= ->]; apply String.eqb_refl.
Qed.

(** ** One task of the loop, in closed form *)

Section Tasks.

Variable accounts : list Mocks.Account.
Variable accountName : string.

Lemma toggle_truthy show :
  truthy show = true -> toggle accountName show = None.
Proof. unfold toggle; intros ->; reflexivity. Qed.

Lemma toggle_falsy show :
  truthy show = false -> toggle accountName show = Some accountName.
Proof. unfold toggle; intros ->; reflexivity. Qed.

Lemma falsy_changes show :
  truthy show = false -> accountName <> "" ->
  object_is show (Some accountName) = false.
Proof.
  intros Ht Hn. apply truthy_false in Ht as [-> | ->]; [reflexivity|].
  unfold object_is. apply String.eqb_neq; congruence.
Qed.

(** The handler builds the same state whatever event object it is given. *)
Lemma click_any_event e e' st :
  click accounts accountName e st = click accounts accountName e' st.
Proof. reflexivity. Qed.

Lemma click_showMnemonic e st :
  showMnemonic (click accounts accountName e st)
  = toggle accountName (showMnemonic st).
Proof.
  unfold click, commit, onClick; simpl.
  rewrite checkpoint_showMnemonic.
  destruct (object_is _ _); [reflexivity|].
  unfold effect, getMnemonic; simpl.
  destruct (truthy (toggle accountName (showMnemonic st))); [|reflexivity].
  destruct (fetchMnemonic accounts accountName); reflexivity.
Qed.

(** A click on a revealed component: the flag and the value are cleared,
    the queues are left as they are. *)
Lemma click_hide e st :
  microtasks st = [] ->
  truthy (showMnemonic st) = true ->
  click accounts accountName e st
  = setMnemonic None (setShowMnemonic None st).
Proof.
  intros Hm Ht.
  unfold click, commit, onClick; simpl.
  rewrite (toggle_truthy _ Ht).
  destruct st as [show mn ts ms]; simpl in *; subst ms.
  destruct show as [s|]; [|discriminate]; simpl.
  unfold effect; simpl. reflexivity.
Qed.

(** A click on a hidden component whose account has a record. *)
Lemma click_reveal_found e st account :
  microtasks st = [] ->
  truthy (showMnemonic st) = false ->
  accountName <> "" ->
  find_account accounts accountName = Some account ->
  click accounts accountName e st
  = setTimeout (Mocks.mnemonic account)
      (setShowMnemonic (Some accountName) st).
Proof.
  intros Hm Ht Hn Hf.
  unfold click, commit, onClick; simpl.
  rewrite (toggle_falsy _ Ht), (falsy_changes _ Ht Hn).
  unfold effect, getMnemonic, fetchMnemonic.
  rewrite Hf. apply String.eqb_neq in Hn.
  cbn [truthy showMnemonic setShowMnemonic]. rewrite Hn; cbn [negb].
  apply checkpoint_idle; simpl; exact Hm.
Qed.

(** A click on a hidden component whose account has no record: the
    promise is already fulfilled and the checkpoint of the same task
    stores the sentinel. *)
Lemma click_reveal_missing e st :
  microtasks st = [] ->
  truthy (showMnemonic st) = false ->
  accountName <> "" ->
  find_account accounts accountName = None ->
  click accounts accountName e st
  = setMnemonic (Some "n/a") (setShowMnemonic (Some accountName) st).
Proof.
  intros Hm Ht Hn Hf.
  unfold click, commit, onClick; simpl.
  rewrite (toggle_falsy _ Ht), (falsy_changes _ Ht Hn).
  unfold effect, getMnemonic, fetchMnemonic.
  rewrite Hf. apply String.eqb_neq in Hn.
  cbn [truthy showMnemonic setShowMnemonic]. rewrite Hn; cbn [negb].
  destruct st as [show mn ts ms]; simpl in *; subst ms; reflexivity.
Qed.

(** A timer that fires stores its value, whatever the flag says. *)
Lemma fire_closed v rest st :
  microtasks st = [] ->
  fire v rest st = setMnemonic (Some v) (setTimers rest st).
Proof.
  destruct st as [show mn ts ms]; simpl; intros ->; reflexivity.
Qed.

Lemma step_microtasks st e st' :
  step accounts accountName st e st' -> microtasks st' = [].
Proof.
  intros H; inversion H; subst; apply checkpoint_microtasks.
Qed.

Lemma step_timeout_showMnemonic st st' :
  step accounts accountName st Timeout st' ->
  showMnemonic st' = showMnemonic st.
Proof.
  intros H; inversion H; subst.
  unfold fire. now rewrite checkpoint_showMnemonic.
Qed.

(** *** The relation and the function agree *)

Lemma next_step e st st' :
  next accounts accountName e st = Some st'
  <-> step accounts accountName st e st'.
Proof.
  split.
  - destruct e; simpl.
    + intros [= <-]; constructor.
    + destruct (timers st) as [|v rest] eqn:Ht; [discriminate|].
      intros [= <-]; now constructor.
  - intros H; inversion H; subst; simpl.
    + reflexivity.
    + match goal with Ht : timers _ = _ |- _ => now rewrite Ht end.
Qed.

Lemma exec_run evs st st' :
  exec accounts accountName evs st = Some st'
  <-> run accounts accountName st evs st'.
Proof.
  revert st; induction evs as [|e evs IH]; intro st; cbn [exec].
  - split; [intros [= <-]; constructor | intros H; now inversion H].
  - split.
    + destruct (next accounts accountName e st) as [st1|] eqn:Hn;
        [|discriminate].
      intros H. econstructor; [apply next_step; eassumption|].
      now apply IH.
    + intros H; inversion H as [|? ? st1 ? ? Hs Hr]; subst.
      apply next_step in Hs; rewrite Hs.
      now apply IH.
Qed.

Lemma step_deterministic st e st1 st2 :
  step accounts accountName st e st1 ->
  step accounts accountName st e st2 -> st1 = st2.
Proof.
  intros H1 H2; apply next_step in H1, H2; congruence.
Qed.

Lemma run_deterministic evs st st1 st2 :
  run accounts accountName st evs st1 ->
  run accounts accountName st evs st2 -> st1 = st2.
Proof.
  intros H1; revert st2; induction H1 as [st|st e st' evs st'' Hs _ IH];
    intros st2 H2; inversion H2 as [|? ? st1 ? ? Hs' Hr]; subst;
    [reflexivity|].
  apply IH. now rewrite (step_deterministic _ _ _ _ Hs Hs').
Qed.

Lemma run_app evs1 evs2 st st1 st2 :
  run accounts accountName st evs1 st1 ->
  run accounts accountName st1 evs2 st2 ->
  run accounts accountName st (evs1 ++ evs2) st2.
Proof.
  intros H1; revert st2; induction H1; intros st2 H2; simpl;
    [assumption | econstructor; eauto].
Qed.

Lemma run_app_inv evs1 evs2 st st2 :
  run accounts accountName st (evs1 ++ evs2) st2 ->
  exists st1, run accounts accountName st evs1 st1
              /\ run accounts accountName st1 evs2 st2.
Proof.
  revert st; induction evs1 as [|e evs1 IH]; intros st H; simpl in *.
  - exists st; split; [constructor | assumption].
  - inversion H as [|? ? st' ? ? Hs Hr]; subst.
    destruct (IH _ Hr) as (st1 & Ha & Hb).
    exists st1; split; [econstructor; eassumption | assumption].
Qed.

(** Invariants of the loop are proved task by task. *)
Lemma run_invariant (P : state -> Prop) :
  (forall st e st', P st -> step accounts accountName st e st' -> P st') ->
  forall st evs st', run accounts accountName st evs st' -> P st -> P st'.
Proof.
  intros Hstep st evs st' H; induction H; intros HP; [assumption|].
  eauto.
Qed.

Lemma mount_initial : mount accounts accountName = initial.
Proof. reflexivity. Qed.

Lemma reachable_microtasks st :
  reachable accounts accountName st -> microtasks st = [].
Proof.
  intros [evs H].
  refine (run_invariant (fun s => microtasks s = []) _ _ _ _ H _).
  - intros s e s' _ Hs; exact (step_microtasks _ _ _ Hs).
  - reflexivity.
Qed.

End Tasks.

(** ** The lookup *)

Lemma find_account_some accounts accountName account :
  find_account accounts accountName = Some account ->
  In account accounts /\ Mocks.name account = accountName.
Proof.
  intros H; apply find_some in H as [Hin Hname].
  split; [assumption | now apply String.eqb_eq].
Qed.

Lemma find_account_none accounts accountName :
  find_account accounts accountName = None
  <-> forall account, In account accounts -> Mocks.name account <> accountName.
Proof.
  unfold find_account; split.
  - intros H account Hin. apply String.eqb_neq.
    exact (find_none _ _ H account Hin).
  - intros H; induction accounts as [|acc rest IH]; [reflexivity|].
    simpl. destruct (String.eqb_spec (Mocks.name acc) accountName) as [E|_].
    + now destruct (H acc (or_introl eq_refl)).
    + apply IH; intros account Hin; apply H; now right.
Qed.

Lemma find_account_exists accounts accountName :
  (exists account, In account accounts /\ Mocks.name account = accountName) ->
  exists account, find_account accounts accountName = Some account.
Proof.
  intros (account & Hin & Hname).
  destruct (find_account accounts accountName) as [found|] eqn:Hf;
    [now exists found|].
  destruct (proj1 (find_account_none _ _) Hf account Hin Hname).
Qed.

(** Where the names of the table are pairwise different, the record
    found is the only one of that name. *)
Lemma find_account_unique accounts accountName account :
  NoDup (map Mocks.name accounts) ->
  In account accounts -> Mocks.name account = accountName ->
  find_account accounts accountName = Some account.
Proof.
  unfold find_account.
  induction accounts as [|acc rest IH]; intros Hnd Hin Hname; [easy|].
  simpl in *. inversion Hnd as [|? ? Hnotin Hnd']; subst.
  destruct Hin as [-> | Hin].
  - now rewrite String.eqb_refl.
  - destruct (String.eqb_spec (Mocks.name acc) (Mocks.name account)) as [E|_].
    + exfalso; apply Hnotin; rewrite E; now apply in_map.
    + now apply IH.
Qed.

Lemma resolves_with_functional p v w :
  resolves_with p v -> resolves_with p w -> v = w.
Proof. intros Hv Hw; inversion Hv; subst; inversion Hw; reflexivity. Qed.

Lemma fetchMnemonic_found accounts accountName account :
  find_account accounts accountName = Some account ->
  fetchMnemonic accounts accountName = Scheduled (Mocks.mnemonic account).
Proof. unfold fetchMnemonic; intros ->; reflexivity. Qed.

Lemma fetchMnemonic_missing accounts accountName :
  find_account accounts accountName = None ->
  fetchMnemonic accounts accountName = Resolved "n/a".
Proof. unfold fetchMnemonic; intros ->; reflexivity. Qed.

Lemma resolves_with_iff p v0 :
  resolves_with p v0 -> forall v, resolves_with p v <-> v = v0.
Proof.
  intros H0 v; split; [intros Hv | intros ->; assumption].
  exact (resolves_with_functional _ _ _ Hv H0).
Qed.

(** C1. For an account name that matches a record of the table,
    [fetchMnemonic] resolves with exactly the mnemonic of that record (the
    record [accounts.find] returns, which is the only one of that name
    where names are not repeated); for an account name that matches no
    record it resolves with exactly the string "n/a". *)
Theorem fetchMnemonic_lookup accounts accountName :
  (forall account,
      find_account accounts accountName = Some account ->
      In account accounts /\ Mocks.name account = accountName /\
      forall v, resolves_with (fetchMnemonic accounts accountName) v
                <-> v = Mocks.mnemonic account)
  /\ ((exists account,
          In account accounts /\ Mocks.name account = accountName) ->
      exists account, find_account accounts accountName = Some account)
  /\ (NoDup (map Mocks.name accounts) ->
      forall account,
        In account accounts -> Mocks.name account = accountName ->
        forall v, resolves_with (fetchMnemonic accounts accountName) v
                  <-> v = Mocks.mnemonic account)
  /\ ((forall account,
          In account accounts -> Mocks.name account <> accountName) ->
      forall v, resolves_with (fetchMnemonic accounts accountName) v
                <-> v = "n/a").
Proof.
  split; [|split; [|split]].
  - intros account Hf.
    destruct (find_account_some _ _ _ Hf) as [Hin Hname].
    repeat split; try assumption;
      rewrite (fetchMnemonic_found _ _ _ Hf) in *.
    + intros Hv; inversion Hv; reflexivity.
    + intros ->; constructor.
  - apply find_account_exists.
  - intros Hnd account Hin Hname.
    apply resolves_with_iff.
    rewrite (fetchMnemonic_found _ _ _
               (find_account_unique _ _ _ Hnd Hin Hname)).
    constructor.
  - intros Hnone. apply resolves_with_iff.
    rewrite (fetchMnemonic_missing _ _ (proj2 (find_account_none _ _) Hnone)).
    constructor.
Qed.

Lemma fetchMnemonic_lookup_witness :
  resolves_with (fetchMnemonic scenario_accounts "alice") "apple banana cherry"
  /\ resolves_with (fetchMnemonic scenario_accounts "ghost") "n/a".
Proof.
  pose proof (fetchMnemonic_lookup scenario_accounts "alice")
    as (Hfirst & _ & Hunique & _).
  pose proof (fetchMnemonic_lookup scenario_accounts "ghost")
    as (_ & _ & _ & Hmissing).
  split.
  - apply (Hunique
             (NoDup_cons "alice" (fun H : In "alice" [] => H) (NoDup_nil _))
             {| Mocks.name := "alice";
                Mocks.mnemonic := "apple banana cherry" |}
             (or_introl eq_refl) eq_refl).
    reflexivity.
  - apply Hmissing; [|reflexivity].
    intros account [<- | []]; discriminate.
Defined.

(** ** The empty account name *)

(** With the empty string as account name the flag, once set, holds the
    empty string, which is falsy: the effect never issues a lookup. *)
Lemma empty_name_invariant accounts st :
  reachable accounts "" st ->
  (showMnemonic st = None \/ showMnemonic st = Some "")
  /\ mnemonic st = None /\ timers st = [] /\ microtasks st = [].
Proof.
  intros [evs H].
  refine (run_invariant accounts ""
            (fun s => (showMnemonic s = None \/ showMnemonic s = Some "")
                      /\ mnemonic s = None /\ timers s = []
                      /\ microtasks s = []) _ _ _ _ H _).
  - clear; intros st e st' (Hshow & Hmn & Hts & Hms) Hstep.
    inversion Hstep as [? ev | ? v rest Ht]; subst.
    + destruct st as [show mn ts ms]; simpl in *; subst.
      destruct Hshow as [-> | ->]; cbv; auto.
    + rewrite Hts in Ht; discriminate.
  - cbv; auto.
Qed.

Lemma output_hidden_empty st :
  truthy (showMnemonic st) = false -> mnemonic st = None ->
  output st = [Typography body2 "Show mnemonic"].
Proof.
  unfold output, render, label; intros -> ->; reflexivity.
Qed.

Lemma output_caption st v :
  v <> "" -> mnemonic st = Some v ->
  output st = [Typography body2 (label st); Typography caption v].
Proof.
  unfold output, render; intros Hv ->; simpl.
  apply String.eqb_neq in Hv; rewrite Hv; reflexivity.
Qed.

(** C2, as the code has it.  With the empty string as account name a
    click cannot reveal: in every reachable state the flag is falsy, no
    lookup is in flight, no value is stored, and the component renders
    the label "Show mnemonic" alone.  Every non-empty account name that
    has no record does display "n/a" after one click. *)
Theorem empty_accountName_stays_hidden accounts :
  (forall st,
      reachable accounts "" st ->
      truthy (showMnemonic st) = false /\ mnemonic st = None
      /\ timers st = []
      /\ output st = [Typography body2 "Show mnemonic"])
  /\ (forall accountName,
         accountName <> "" ->
         find_account accounts accountName = None ->
         exists st,
           run accounts accountName (mount accounts accountName) [Click] st
           /\ timers st = []
           /\ output st = [Typography body2 "Hide mnemonic";
                           Typography caption "n/a"]).
Proof.
  split.
  - intros st Hr.
    destruct (empty_name_invariant _ _ Hr) as (Hshow & Hmn & Hts & _).
    assert (Ht : truthy (showMnemonic st) = false)
      by (apply truthy_false; exact Hshow).
    repeat split; try assumption.
    now apply output_hidden_empty.
  - intros accountName Hn Hf.
    exists (click accounts accountName click_event
              (mount accounts accountName)).
    split; [|split].
    + econstructor; [constructor | constructor].
    + rewrite (click_reveal_missing accounts accountName click_event
               (mount accounts accountName) eq_refl eq_refl Hn Hf).
      reflexivity.
    + rewrite (click_reveal_missing accounts accountName click_event
               (mount accounts accountName) eq_refl eq_refl Hn Hf).
      rewrite (output_caption _ "n/a"); [|discriminate|reflexivity].
      unfold label; simpl.
      apply String.eqb_neq in Hn; rewrite Hn; reflexivity.
Qed.

Lemma empty_accountName_stays_hidden_witness :
  output (click scenario_accounts "" click_event (mount scenario_accounts ""))
  = [Typography body2 "Show mnemonic"]
  /\ exists st,
       run scenario_accounts "ghost" (mount scenario_accounts "ghost")
         [Click] st
       /\ timers st = []
       /\ output st = [Typography body2 "Hide mnemonic";
                       Typography caption "n/a"].
Proof.
  pose proof (empty_accountName_stays_hidden scenario_accounts)
    as [Hempty Hghost].
  split.
  - apply Hempty. exists [Click].
    econstructor; [constructor | constructor].
  - apply (Hghost "ghost"); [discriminate | reflexivity].
Defined.

(** C2 as stated fails: with the empty account name no sequence of tasks
    that starts with a click ever displays "n/a". *)
Lemma empty_accountName_never_displays_sentinel :
  ~ click_eventually_displays scenario_accounts "" "n/a".
Proof.
  intros (evs & st & Hrun & Hin).
  assert (Hr : reachable scenario_accounts "" st) by (eexists; exact Hrun).
  destruct (empty_name_invariant _ _ Hr) as (Hshow & Hmn & _).
  rewrite output_hidden_empty in Hin;
    [|apply truthy_false; exact Hshow | exact Hmn].
  destruct Hin as [Heq | []]; discriminate.
Qed.

(** ** Hiding, and lookups that complete late *)

Lemma step_click_inv accounts accountName st st' :
  step accounts accountName st Click st' ->
  st' = click accounts accountName click_event st.
Proof. intros H; inversion H; subst; reflexivity. Qed.

Lemma step_timeout_inv accounts accountName st st' :
  microtasks st = [] ->
  step accounts accountName st Timeout st' ->
  exists v rest,
    timers st = v :: rest /\ st' = setMnemonic (Some v) (setTimers rest st).
Proof.
  intros Hm H; inversion H as [|? v rest Ht]; subst.
  exists v, rest; split; [assumption | now apply fire_closed].
Qed.

(** C3. When the flag goes from revealed to not revealed, the stored
    value is cleared in the same task, and the lookups in flight stay in
    flight: the clearing branch of the effect is a plain call, behind no
    [await]. *)
Theorem hiding_clears_mnemonic accounts accountName :
  (forall st,
      truthy (showMnemonic st) = false ->
      effect accounts accountName st = setMnemonic None st)
  /\ (forall st ev st',
         microtasks st = [] ->
         step accounts accountName st ev st' ->
         truthy (showMnemonic st) = true ->
         truthy (showMnemonic st') = false ->
         ev = Click /\ showMnemonic st' = None /\ mnemonic st' = None
         /\ timers st' = timers st /\ microtasks st' = []).
Proof.
  split.
  - intros st Ht; unfold effect; now rewrite Ht.
  - intros st ev st' Hm Hstep Hbefore Hafter.
    destruct ev.
    + apply step_click_inv in Hstep; subst st'.
      rewrite (click_hide _ _ _ _ Hm Hbefore); simpl.
      repeat split; assumption.
    + rewrite (step_timeout_showMnemonic _ _ _ _ Hstep) in Hafter.
      congruence.
Qed.

Lemma hiding_clears_mnemonic_witness :
  showMnemonic
    (click scenario_accounts "alice" click_event alice_revealing) = None
  /\ mnemonic
       (click scenario_accounts "alice" click_event alice_revealing) = None
  /\ timers (click scenario_accounts "alice" click_event alice_revealing)
     = ["apple banana cherry"].
Proof.
  destruct (proj2 (hiding_clears_mnemonic scenario_accounts "alice")
              alice_revealing Click
              (click scenario_accounts "alice" click_event alice_revealing)
              eq_refl
              (step_click scenario_accounts "alice" alice_revealing
                 click_event)
              eq_refl eq_refl)
    as (_ & Hshow & Hmn & Hts & _).
  repeat split; assumption.
Defined.

(** C4. A lookup in flight is not cancelled by the click that hides, and
    the timer that completes it stores its value whatever the flag says:
    after reveal, hide, completion the flag is absent and the value is
    present. *)
Theorem late_lookup_overwrites accounts accountName :
  (forall st st',
      microtasks st = [] ->
      step accounts accountName st Timeout st' ->
      exists v rest,
        timers st = v :: rest
        /\ st' = setMnemonic (Some v) (setTimers rest st))
  /\ (forall account,
         accountName <> "" ->
         find_account accounts accountName = Some account ->
         exists revealing hidden late,
           run accounts accountName (mount accounts accountName)
             [Click] revealing
           /\ truthy (showMnemonic revealing) = true
           /\ timers revealing = [Mocks.mnemonic account]
           /\ run accounts accountName revealing [Click] hidden
           /\ showMnemonic hidden = None /\ mnemonic hidden = None
           /\ timers hidden = [Mocks.mnemonic account]
           /\ run accounts accountName hidden [Timeout] late
           /\ showMnemonic late = None
           /\ mnemonic late = Some (Mocks.mnemonic account)
           /\ label late = "Show mnemonic").
Proof.
  split; [intros st st'; apply step_timeout_inv|].
  intros account Hn Hf.
  set (m := Mocks.mnemonic account).
  pose (revealing :=
          {| showMnemonic := Some accountName; mnemonic := None;
             timers := [m]; microtasks := [] |}).
  pose (hidden :=
          {| showMnemonic := None; mnemonic := None;
             timers := [m]; microtasks := [] |}).
  pose (late :=
          {| showMnemonic := None; mnemonic := Some m;
             timers := []; microtasks := [] |}).
  assert (Ht : truthy (showMnemonic revealing) = true).
  { simpl. apply String.eqb_neq in Hn. now rewrite Hn. }
  assert (H1 : click accounts accountName click_event
                 (mount accounts accountName) = revealing).
  { now rewrite (click_reveal_found accounts accountName click_event
                   (mount accounts accountName) account eq_refl eq_refl
                   Hn Hf). }
  assert (H2 : click accounts accountName click_event revealing = hidden).
  { now rewrite (click_hide accounts accountName click_event revealing
                   eq_refl Ht). }
  assert (H3 : fire m [] hidden = late) by reflexivity.
  exists revealing, hidden, late.
  repeat split; try assumption; try reflexivity.
  - rewrite <- H1. econstructor; constructor.
  - rewrite <- H2. econstructor; constructor.
  - rewrite <- H3. econstructor; [now constructor | constructor].
Qed.

Lemma late_lookup_overwrites_witness :
  exists late,
    run scenario_accounts "alice" (mount scenario_accounts "alice")
      [Click; Click; Timeout] late
    /\ showMnemonic late = None
    /\ mnemonic late = Some "apple banana cherry".
Proof.
  destruct (proj2 (late_lookup_overwrites scenario_accounts "alice")
              {| Mocks.name := "alice";
                 Mocks.mnemonic := "apple banana cherry" |}
              ltac:(discriminate) eq_refl)
    as (revealing & hidden & late & R1 & _ & _ & R2 & _ & _ & _ & R3
        & Hshow & Hmn & _).
  exists late. split; [|split; assumption].
  apply (run_app _ _ [Click] [Click; Timeout] _ revealing _ R1).
  exact (run_app _ _ [Click] [Timeout] _ hidden _ R2 R3).
Defined.

(** ** Two clicks *)

Lemma run_timeouts accounts accountName evs st st' :
  Forall (eq Timeout) evs ->
  run accounts accountName st evs st' ->
  microtasks st = [] ->
  showMnemonic st' = showMnemonic st /\ microtasks st' = [].
Proof.
  intros Hall Hrun; induction Hrun as [st|st e st1 evs st2 Hs _ IH];
    intros Hm; [now split|].
  inversion Hall as [|? ? He Hall']; subst.
  destruct (IH Hall' (step_microtasks _ _ _ _ _ Hs)) as [Hshow Hms].
  split; [|assumption].
  rewrite Hshow. exact (step_timeout_showMnemonic _ _ _ _ Hs).
Qed.

(** C5. Reveal, then hide: whatever lookups complete between the two
    clicks, the component renders what it rendered when it was mounted,
    the label "Show mnemonic" and no caption. *)
Theorem two_clicks_restore_render accounts accountName evs st :
  Forall (eq Timeout) evs ->
  run accounts accountName (mount accounts accountName)
    (Click :: evs ++ [Click]) st ->
  output st = output (mount accounts accountName)
  /\ output st = [Typography body2 "Show mnemonic"].
Proof.
  intros Hall Hrun.
  enough (Hout : output st = [Typography body2 "Show mnemonic"])
    by (split; [rewrite Hout; reflexivity | exact Hout]).
  destruct (String.eqb_spec accountName "") as [-> | Hn].
  - assert (Hr : reachable accounts "" st) by (eexists; exact Hrun).
    destruct (empty_name_invariant _ _ Hr) as (Hshow & Hmn & _).
    apply output_hidden_empty; [apply truthy_false|]; assumption.
  - inversion Hrun as [|? ? revealing ? ? Hs1 Hrest]; subst.
    apply run_app_inv in Hrest as (later & Hmid & Hlast).
    inversion Hlast as [|? ? st1 ? ? Hs2 Hnil]; subst.
    inversion Hnil; subst.
    apply step_click_inv in Hs1, Hs2.
    destruct (run_timeouts _ _ _ _ _ Hall Hmid) as [Hshow Hms].
    { subst revealing; apply checkpoint_microtasks. }
    assert (Ht : truthy (showMnemonic later) = true).
    { rewrite Hshow, Hs1, click_showMnemonic; simpl.
      apply String.eqb_neq in Hn; now rewrite Hn. }
    rewrite Hs2, (click_hide _ _ _ _ Hms Ht). reflexivity.
Qed.

Lemma two_clicks_restore_render_witness :
  exists st,
    run scenario_accounts "alice" (mount scenario_accounts "alice")
      [Click; Timeout; Click] st
    /\ output st = [Typography body2 "Show mnemonic"].
Proof.
  assert (Hrun : exists st,
             run scenario_accounts "alice" (mount scenario_accounts "alice")
               (Click :: [Timeout] ++ [Click]) st).
  { eexists. apply exec_run. reflexivity. }
  destruct Hrun as [st Hrun]. exists st. split; [exact Hrun|].
  exact (proj2 (two_clicks_restore_render scenario_accounts "alice"
                  [Timeout] st
                  (Forall_cons Timeout eq_refl (Forall_nil _)) Hrun)).
Defined.

(** ** The label and the toggle *)

Lemma toggle_cases accountName show :
  toggle accountName show = None \/ toggle accountName show = Some accountName.
Proof. unfold toggle; destruct (truthy show); simpl; auto. Qed.

(** The flag of a reachable state is absent or holds the account name. *)
Lemma reachable_showMnemonic accounts accountName st :
  reachable accounts accountName st ->
  showMnemonic st = None \/ showMnemonic st = Some accountName.
Proof.
  intros [evs H].
  refine (run_invariant accounts accountName
            (fun s => showMnemonic s = None
                      \/ showMnemonic s = Some accountName) _ _ _ _ H _).
  - clear; intros st e st' IH Hstep. destruct e.
    + apply step_click_inv in Hstep; subst st'.
      rewrite click_showMnemonic. apply toggle_cases.
    + now rewrite (step_timeout_showMnemonic _ _ _ _ Hstep).
  - now left.
Qed.

Lemma label_falsy st :
  truthy (showMnemonic st) = false -> label st = "Show mnemonic".
Proof. unfold label; intros ->; reflexivity. Qed.

Lemma label_truthy st :
  truthy (showMnemonic st) = true -> label st = "Hide mnemonic".
Proof. unfold label; intros ->; reflexivity. Qed.

(** C6, as the code has it.  The label is "Show mnemonic" when the flag
    is absent or the empty string and "Hide mnemonic" when the flag is a
    non-empty string, and nothing else in any state.  With a non-empty
    account name the flag of a reachable state is never the empty string,
    and the label tells whether the flag is present. *)
Theorem label_text accounts accountName :
  (forall st, label st = "Show mnemonic" \/ label st = "Hide mnemonic")
  /\ (forall st,
         showMnemonic st = None \/ showMnemonic st = Some "" ->
         label st = "Show mnemonic")
  /\ (forall st s,
         showMnemonic st = Some s -> s <> "" -> label st = "Hide mnemonic")
  /\ (accountName <> "" -> label_follows_presence accounts accountName).
Proof.
  split; [|split; [|split]].
  - intros st; unfold label; destruct (truthy (showMnemonic st)); auto.
  - intros st H; apply label_falsy, truthy_false, H.
  - intros st s Hs Hne; apply label_truthy, truthy_true; eauto.
  - intros Hn st Hr; split.
    + intros Hnone; apply label_falsy; now rewrite Hnone.
    + intros Hsome.
      destruct (reachable_showMnemonic _ _ _ Hr) as [H | H];
        [contradiction|].
      apply label_truthy, truthy_true; eauto.
Qed.

Lemma label_text_witness :
  label (click scenario_accounts "alice" click_event
           (mount scenario_accounts "alice")) = "Hide mnemonic"
  /\ label (click scenario_accounts "" click_event
              (mount scenario_accounts "")) = "Show mnemonic".
Proof.
  pose proof (label_text scenario_accounts "alice")
    as (_ & Hshow & Hhide & Hreach).
  split.
  - apply (Hreach ltac:(discriminate)); [|discriminate].
    exists [Click]. econstructor; constructor.
  - apply Hshow. right; reflexivity.
Defined.

(** C6 as stated fails: with the empty account name one click makes the
    flag present, holding the empty string, and the label still reads
    "Show mnemonic". *)
Lemma label_ignores_empty_flag :
  ~ label_follows_presence scenario_accounts "".
Proof.
  intros H.
  destruct (H (click scenario_accounts "" click_event
                 (mount scenario_accounts ""))) as [_ Hhide].
  - exists [Click]. econstructor; constructor.
  - discriminate (Hhide ltac:(discriminate)).
Qed.

Lemma run_one_click accounts accountName st :
  run accounts accountName st [Click]
    (click accounts accountName click_event st).
Proof. econstructor; [apply step_click | apply run_nil]. Qed.

(** C7 as stated fails: with the empty account name the flag of the state
    after one click is present, and a second click leaves it present. *)
Lemma click_keeps_empty_flag :
  ~ click_toggles_presence scenario_accounts "".
Proof.
  intros H.
  pose (once := click scenario_accounts "" click_event
                  (mount scenario_accounts "")).
  destruct (H once (click scenario_accounts "" click_event once))
    as [_ Hclear].
  - exists [Click]. apply run_one_click.
  - apply step_click.
  - discriminate (Hclear ltac:(discriminate)).
Qed.

Lemma bubble_stopped W e (ancestors : list (handler W)) w :
  propagationStopped e = true -> bubble W e ancestors w = w.
Proof. destruct ancestors; simpl; [reflexivity | intros ->; reflexivity]. Qed.

(** C7, as the code has it.  The handler stops the propagation, so no
    handler of an ancestor runs; the click then sets a falsy flag (absent,
    or the empty string) to the account name and a truthy flag to absent,
    whatever name the flag held.  With a non-empty account name the flag
    of a reachable state is never the empty string, and the click toggles
    between absent and the account name. *)
Theorem click_toggles_truthiness accounts accountName :
  (forall e st, propagationStopped (fst (onClick accountName e st)) = true)
  /\ (forall W st (ancestors : list (handler W)) w,
         dispatch W accountName st ancestors w
         = (snd (onClick accountName click_event st), w))
  /\ (forall st st',
         step accounts accountName st Click st' ->
         (truthy (showMnemonic st) = false ->
          showMnemonic st' = Some accountName)
         /\ (truthy (showMnemonic st) = true -> showMnemonic st' = None))
  /\ (accountName <> "" -> click_toggles_presence accounts accountName).
Proof.
  split; [|split; [|split]].
  - reflexivity.
  - intros W st ancestors w. unfold dispatch, onClick.
    now rewrite bubble_stopped.
  - intros st st' Hstep. apply step_click_inv in Hstep; subst st'.
    rewrite click_showMnemonic. split; intros Ht.
    + now apply toggle_falsy.
    + now apply toggle_truthy.
  - intros Hn st st' Hr Hstep. apply step_click_inv in Hstep; subst st'.
    rewrite click_showMnemonic. split.
    + intros ->; reflexivity.
    + intros Hsome.
      destruct (reachable_showMnemonic _ _ _ Hr) as [H | H];
        [contradiction|].
      apply toggle_truthy. rewrite H; simpl.
      apply String.eqb_neq in Hn; now rewrite Hn.
Qed.

Lemma click_toggles_truthiness_witness :
  showMnemonic
    (click scenario_accounts "alice" click_event
       (mount scenario_accounts "alice")) = Some "alice"
  /\ showMnemonic
       (click scenario_accounts "alice" click_event
          (click scenario_accounts "alice" click_event
             (mount scenario_accounts "alice"))) = None.
Proof.
  pose (revealing := click scenario_accounts "alice" click_event
                       (mount scenario_accounts "alice")).
  pose proof (click_toggles_truthiness scenario_accounts "alice")
    as (_ & _ & Hstep & Hreach).
  split.
  - apply (Hstep (mount scenario_accounts "alice") revealing);
      [apply step_click | reflexivity].
  - apply (Hreach ltac:(discriminate) revealing); [| apply step_click |].
    + exists [Click]. apply run_one_click.
    + discriminate.
Defined.

(** ** The sentinel and the empty mnemonic *)

Lemma settle_reveal_found accounts accountName account :
  accountName <> "" ->
  find_account accounts accountName = Some account ->
  settle (click accounts accountName click_event (mount accounts accountName))
  = {| showMnemonic := Some accountName;
       mnemonic := Some (Mocks.mnemonic account);
       timers := []; microtasks := [] |}.
Proof.
  intros Hn Hf.
  now rewrite (click_reveal_found accounts accountName click_event
                 (mount accounts accountName) account eq_refl eq_refl Hn Hf).
Qed.

Lemma settle_reveal_missing accounts accountName :
  accountName <> "" ->
  find_account accounts accountName = None ->
  settle (click accounts accountName click_event (mount accounts accountName))
  = {| showMnemonic := Some accountName; mnemonic := Some "n/a";
       timers := []; microtasks := [] |}.
Proof.
  intros Hn Hf.
  now rewrite (click_reveal_missing accounts accountName click_event
                 (mount accounts accountName) eq_refl eq_refl Hn Hf).
Qed.

(** With the empty account name the table is never consulted. *)
Lemma click_empty_name accounts st :
  click accounts "" click_event st
  = checkpoint
      (if truthy (showMnemonic st) then setMnemonic None (setShowMnemonic None st)
       else match showMnemonic st with
            | None => setMnemonic None (setShowMnemonic (Some "") st)
            | Some _ => setShowMnemonic (Some "") st
            end).
Proof.
  unfold click, commit, onClick, toggle, effect; simpl.
  destruct (showMnemonic st) as [s|]; simpl; [|reflexivity].
  destruct (String.eqb_spec s "") as [-> | Hs]; simpl; reflexivity.
Qed.

(** C8. The promise [fetchMnemonic] returns never rejects: it resolves
    for every account name, with the string "n/a" where no record
    matches.  The sentinel is rendered as a caption like any fetched
    value, and a component whose account has no record ends in the same
    state as one whose record holds the mnemonic "n/a". *)
Theorem fetchMnemonic_never_rejects accounts accountName :
  ~ rejects (fetchMnemonic accounts accountName)
  /\ (exists v, resolves_with (fetchMnemonic accounts accountName) v)
  /\ (find_account accounts accountName = None ->
      fetchMnemonic accounts accountName = Resolved "n/a")
  /\ (forall st,
         mnemonic st = Some "n/a" ->
         output st = [Typography body2 (label st); Typography caption "n/a"])
  /\ (forall accounts' account,
         find_account accounts accountName = None ->
         find_account accounts' accountName = Some account ->
         Mocks.mnemonic account = "n/a" ->
         settle (click accounts accountName click_event
                   (mount accounts accountName))
         = settle (click accounts' accountName click_event
                     (mount accounts' accountName))).
Proof.
  split; [|split; [|split; [|split]]].
  - intros [reason H]; unfold fetchMnemonic in H.
    destruct (find_account accounts accountName); discriminate.
  - unfold fetchMnemonic.
    destruct (find_account accounts accountName) as [account|];
      eexists; constructor.
  - apply fetchMnemonic_missing.
  - intros st Hmn. apply output_caption; [discriminate | assumption].
  - intros accounts' account Hnone Hsome Hsentinel.
    destruct (String.eqb_spec accountName "") as [-> | Hn].
    + now rewrite !click_empty_name.
    + rewrite (settle_reveal_missing _ _ Hn Hnone),
        (settle_reveal_found _ _ _ Hn Hsome), Hsentinel.
      reflexivity.
Qed.

Lemma fetchMnemonic_never_rejects_witness :
  fetchMnemonic scenario_accounts "ghost" = Resolved "n/a"
  /\ settle (click scenario_accounts "ghost" click_event
               (mount scenario_accounts "ghost"))
     = settle (click [ {| Mocks.name := "ghost"; Mocks.mnemonic := "n/a" |} ]
                 "ghost" click_event
                 (mount [ {| Mocks.name := "ghost";
                             Mocks.mnemonic := "n/a" |} ] "ghost")).
Proof.
  pose proof (fetchMnemonic_never_rejects scenario_accounts "ghost")
    as (_ & _ & Hmissing & _ & Hsame).
  split.
  - apply Hmissing; reflexivity.
  - apply (Hsame _ {| Mocks.name := "ghost"; Mocks.mnemonic := "n/a" |});
      reflexivity.
Defined.

(** C9. The caption is mounted exactly when the stored value is a
    non-empty string.  A record whose mnemonic is the empty string leaves
    the revealed component with the label alone, as it was while the
    lookup was in flight. *)
Theorem caption_iff_nonempty accounts accountName :
  (forall st text,
      In (Typography caption text) (output st)
      <-> mnemonic st = Some text /\ text <> "")
  /\ (forall st,
         mnemonic st = None \/ mnemonic st = Some "" ->
         output st = [Typography body2 (label st)])
  /\ (forall account,
         accountName <> "" ->
         find_account accounts accountName = Some account ->
         Mocks.mnemonic account = "" ->
         exists revealing revealed,
           run accounts accountName (mount accounts accountName)
             [Click] revealing
           /\ run accounts accountName revealing [Timeout] revealed
           /\ mnemonic revealing = None
           /\ mnemonic revealed = Some ""
           /\ truthy (showMnemonic revealed) = true
           /\ output revealed = [Typography body2 "Hide mnemonic"]
           /\ output revealed = output revealing).
Proof.
  split; [|split].
  - intros st text; unfold output, render; simpl.
    destruct (mnemonic st) as [s|]; simpl.
    + destruct (String.eqb_spec s "") as [-> | Hs]; simpl.
      * split; [intros [H | []]; discriminate|].
        intros [[= <-] Hne]; now destruct Hne.
      * split.
        -- intros [H | [[= <-] | []]]; [discriminate | now split].
        -- intros [[= <-] _]; right; now left.
    + split; [intros [H | []]; discriminate | intros [[=] _]].
  - intros st H; unfold output, render; destruct H as [-> | ->];
      reflexivity.
  - intros account Hn Hf Hempty.
    pose (revealing :=
            {| showMnemonic := Some accountName; mnemonic := None;
               timers := [""]; microtasks := [] |}).
    pose (revealed :=
            {| showMnemonic := Some accountName; mnemonic := Some "";
               timers := []; microtasks := [] |}).
    assert (H1 : click accounts accountName click_event
                   (mount accounts accountName) = revealing).
    { rewrite (click_reveal_found accounts accountName click_event
                 (mount accounts accountName) account eq_refl eq_refl
                 Hn Hf), Hempty.
      reflexivity. }
    assert (H2 : fire "" [] revealing = revealed) by reflexivity.
    assert (Ht : truthy (Some accountName) = true).
    { simpl. apply String.eqb_neq in Hn. now rewrite Hn. }
    exists revealing, revealed.
    repeat split; try reflexivity.
    + rewrite <- H1. apply run_one_click.
    + rewrite <- H2. econstructor; [now apply step_timeout | apply run_nil].
    + exact Ht.
    + unfold output, render, label; simpl showMnemonic. now rewrite Ht.
Qed.

Lemma caption_iff_nonempty_witness :
  exists revealed,
    run blank_accounts "alice" (mount blank_accounts "alice")
      [Click; Timeout] revealed
    /\ mnemonic revealed = Some ""
    /\ output revealed = [Typography body2 "Hide mnemonic"].
Proof.
  destruct (proj2 (proj2 (caption_iff_nonempty blank_accounts "alice"))
              {| Mocks.name := "alice"; Mocks.mnemonic := "" |}
              ltac:(discriminate) eq_refl eq_refl)
    as (revealing & revealed & R1 & R2 & _ & Hmn & _ & Hout & _).
  exists revealed. split; [|split; assumption].
  exact (run_app _ _ [Click] [Timeout] _ revealing _ R1 R2).
Defined.

(** ** Determinism *)

(** Every value a reachable component stores or waits for is the value
    with which the lookup for its account name resolves. *)
Lemma reachable_values accounts accountName st :
  reachable accounts accountName st ->
  forall v,
    mnemonic st = Some v \/ In v (timers st) ->
    resolves_with (fetchMnemonic accounts accountName) v.
Proof.
  intros [evs H].
  enough (Hinv : microtasks st = []
                 /\ forall v, mnemonic st = Some v \/ In v (timers st) ->
                              resolves_with
                                (fetchMnemonic accounts accountName) v)
    by apply Hinv.
  refine (run_invariant accounts accountName
            (fun s => microtasks s = []
                      /\ forall v, mnemonic s = Some v \/ In v (timers s) ->
                                   resolves_with
                                     (fetchMnemonic accounts accountName) v)
            _ _ _ _ H _).
  - clear; intros st e st' [Hm IH] Hstep.
    split; [exact (step_microtasks _ _ _ _ _ Hstep)|].
    destruct e.
    + apply step_click_inv in Hstep; subst st'.
      destruct (truthy (showMnemonic st)) eqn:Ht.
      { rewrite (click_hide _ _ _ _ Hm Ht); simpl.
        intros v [[=] | Hin]; apply IH; now right. }
      destruct (String.eqb_spec accountName "") as [-> | Hn].
      { rewrite click_empty_name, Ht.
        destruct (showMnemonic st); rewrite checkpoint_idle by exact Hm;
          simpl; [exact IH|].
        intros v [[=] | Hin]; apply IH; now right. }
      destruct (find_account accounts accountName) as [account|] eqn:Hf.
      * rewrite (click_reveal_found _ _ _ _ _ Hm Ht Hn Hf); simpl.
        intros v [Hv | Hin]; [apply IH; now left|].
        apply in_app_or in Hin as [Hin | [<- | []]]; [apply IH; now right|].
        rewrite (fetchMnemonic_found _ _ _ Hf); constructor.
      * rewrite (click_reveal_missing _ _ _ _ Hm Ht Hn Hf); simpl.
        intros v [[= <-] | Hin]; [|apply IH; now right].
        rewrite (fetchMnemonic_missing _ _ Hf); constructor.
    + destruct (step_timeout_inv _ _ _ _ Hm Hstep) as (w & rest & Ht & ->).
      simpl. intros v [[= <-] | Hin]; apply IH; right; rewrite Ht;
        [now left | now right].
  - split; [reflexivity|]. intros v [[=] | []].
Qed.

Lemma find_account_filter accounts accountName :
  find_account accounts accountName
  = hd_error (filter (fun acc => Mocks.name acc =? accountName) accounts).
Proof.
  unfold find_account; induction accounts as [|acc rest IH]; simpl;
    [reflexivity|].
  destruct (Mocks.name acc =? accountName); [reflexivity | exact IH].
Qed.

Lemma fetchMnemonic_first_mnemonic accounts accountName :
  fetchMnemonic accounts accountName
  = match first_mnemonic accounts accountName with
    | Some mnic => Scheduled mnic
    | None => Resolved "n/a"
    end.
Proof.
  unfold fetchMnemonic, first_mnemonic. rewrite find_account_filter.
  now destruct (hd_error _).
Qed.

(** The component consults the table through its lookup only, and the
    handler does not read the event object. *)
Lemma click_same_lookup accounts1 accounts2 accountName e1 e2 st :
  fetchMnemonic accounts1 accountName = fetchMnemonic accounts2 accountName ->
  click accounts1 accountName e1 st = click accounts2 accountName e2 st.
Proof.
  intros H. unfold click, commit, effect, getMnemonic, onClick; simpl.
  now rewrite H.
Qed.

Lemma run_same_lookup accounts1 accounts2 accountName st evs st' :
  fetchMnemonic accounts1 accountName = fetchMnemonic accounts2 accountName ->
  run accounts1 accountName st evs st' ->
  run accounts2 accountName st evs st'.
Proof.
  intros H Hrun; induction Hrun as [st|st e st1 evs st2 Hs _ IH];
    [apply run_nil|].
  apply (run_cons _ _ st e st1); [|exact IH].
  inversion Hs as [? ev | ? v rest Ht]; subst.
  - rewrite (click_same_lookup _ _ _ ev ev st H). apply step_click.
  - now apply step_timeout.
Qed.

(** C10. What [fetchMnemonic] returns is fixed by the name and by one
    item of the table, the mnemonic of the first record of that name: two
    tables give the same promise exactly when they agree on that item.
    So two calls against tables that agree there, and in particular two
    calls against the same table, resolve with the same string; and the
    runs of two components over such tables on the same sequence of clicks
    and completions exist together and end in the same state and the same
    render output, whatever event objects the clicks carried. *)
Theorem fetchMnemonic_deterministic accounts1 accounts2 accountName :
  (first_mnemonic accounts1 accountName = first_mnemonic accounts2 accountName
   <-> fetchMnemonic accounts1 accountName
       = fetchMnemonic accounts2 accountName)
  /\ (first_mnemonic accounts1 accountName
      = first_mnemonic accounts2 accountName ->
      (forall v w,
          resolves_with (fetchMnemonic accounts1 accountName) v ->
          resolves_with (fetchMnemonic accounts2 accountName) w ->
          v = w)
      /\ (forall evs st,
             run accounts1 accountName (mount accounts1 accountName) evs st ->
             run accounts2 accountName (mount accounts2 accountName) evs st)
      /\ (forall evs st1 st2,
             run accounts1 accountName (mount accounts1 accountName) evs st1 ->
             run accounts2 accountName (mount accounts2 accountName) evs st2 ->
             st1 = st2 /\ output st1 = output st2)).
Proof.
  assert (Hiff : first_mnemonic accounts1 accountName
                 = first_mnemonic accounts2 accountName
                 <-> fetchMnemonic accounts1 accountName
                     = fetchMnemonic accounts2 accountName).
  { rewrite !fetchMnemonic_first_mnemonic.
    destruct (first_mnemonic accounts1 accountName) as [m1|],
             (first_mnemonic accounts2 accountName) as [m2|];
      split; intros H; try discriminate; try reflexivity.
    - now injection H as ->.
    - now injection H as ->. }
  split; [exact Hiff|].
  intros Hagree. apply Hiff in Hagree.
  assert (Hmove : forall evs st,
             run accounts1 accountName (mount accounts1 accountName) evs st ->
             run accounts2 accountName (mount accounts2 accountName) evs st).
  { intros evs st Hrun.
    change (mount accounts2 accountName) with (mount accounts1 accountName).
    exact (run_same_lookup _ _ _ _ _ _ Hagree Hrun). }
  split; [|split].
  - intros v w Hv Hw. rewrite Hagree in Hv.
    exact (resolves_with_functional _ _ _ Hv Hw).
  - exact Hmove.
  - intros evs st1 st2 H1 H2.
    assert (E : st1 = st2)
      by exact (run_deterministic _ _ _ _ _ _ (Hmove _ _ H1) H2).
    split; [exact E | now rewrite E].
Qed.

Lemma fetchMnemonic_deterministic_witness :
  fetchMnemonic scenario_accounts "alice"
  = fetchMnemonic crowded_accounts "alice"
  /\ exists st,
       run crowded_accounts "alice" (mount crowded_accounts "alice")
         [Click; Timeout] st
       /\ output st = [Typography body2 "Hide mnemonic";
                       Typography caption "apple banana cherry"].
Proof.
  pose proof (fetchMnemonic_deterministic scenario_accounts crowded_accounts
                "alice") as (Hiff & Hsame).
  destruct (Hsame eq_refl) as (_ & Hmove & _).
  split; [apply Hiff; reflexivity|].
  exists {| showMnemonic := Some "alice";
            mnemonic := Some "apple banana cherry";
            timers := []; microtasks := [] |}.
  split; [|reflexivity].
  apply Hmove. apply exec_run. reflexivity.
Defined.

(** ** More on the lookup: repeated names *)

Lemma find_account_app before rest accountName :
  (forall acc, In acc before -> Mocks.name acc <> accountName) ->
  find_account (before ++ rest) accountName = find_account rest accountName.
Proof.
  unfold find_account; induction before as [|acc before IH]; intros H;
    [reflexivity|].
  simpl. destruct (String.eqb_spec (Mocks.name acc) accountName) as [E|_].
  - now destruct (H acc (or_introl eq_refl)).
  - apply IH; intros a Hin; apply H; now right.
Qed.

(** X1. Where several records carry the account name, the first one in
    the table decides and the later ones are never read; a record of
    another name, wherever it stands, changes nothing. *)
Theorem fetchMnemonic_first_match before after accountName :
  (forall account,
      (forall acc, In acc before -> Mocks.name acc <> accountName) ->
      Mocks.name account = accountName ->
      fetchMnemonic (before ++ account :: after) accountName
      = Scheduled (Mocks.mnemonic account))
  /\ (forall other,
         Mocks.name other <> accountName ->
         fetchMnemonic (before ++ other :: after) accountName
         = fetchMnemonic (before ++ after) accountName).
Proof.
  split.
  - intros account Hbefore Hname. unfold fetchMnemonic.
    rewrite (find_account_app _ _ _ Hbefore).
    unfold find_account; simpl.
    apply String.eqb_eq in Hname; now rewrite Hname.
  - intros other Hother. unfold fetchMnemonic.
    enough (E : find_account (before ++ other :: after) accountName
                = find_account (before ++ after) accountName)
      by now rewrite E.
    unfold find_account. induction before as [|acc before IH]; simpl.
    + apply String.eqb_neq in Hother; now rewrite Hother.
    + destruct (Mocks.name acc =? accountName); [reflexivity | exact IH].
Qed.

Lemma fetchMnemonic_first_match_witness :
  fetchMnemonic
    ([ {| Mocks.name := "bob"; Mocks.mnemonic := "kiwi" |} ]
       ++ {| Mocks.name := "alice"; Mocks.mnemonic := "first" |}
       :: [ {| Mocks.name := "alice"; Mocks.mnemonic := "second" |} ])
    "alice"
  = Scheduled "first"
  /\ fetchMnemonic
       ([] ++ {| Mocks.name := "bob"; Mocks.mnemonic := "kiwi" |}
           :: scenario_accounts) "alice"
     = fetchMnemonic ([] ++ scenario_accounts) "alice".
Proof.
  split.
  - apply (proj1 (fetchMnemonic_first_match
                    [ {| Mocks.name := "bob"; Mocks.mnemonic := "kiwi" |} ]
                    [ {| Mocks.name := "alice"; Mocks.mnemonic := "second" |} ]
                    "alice")
             {| Mocks.name := "alice"; Mocks.mnemonic := "first" |});
      [|reflexivity].
    intros acc [<- | []]; discriminate.
  - apply (proj2 (fetchMnemonic_first_match [] scenario_accounts "alice")).
    discriminate.
Defined.

(** ** Counting clicks and lookups *)

Lemma truthy_toggle accountName show :
  accountName <> "" ->
  truthy (toggle accountName show) = negb (truthy show).
Proof.
  intros Hn; unfold toggle; destruct (truthy show); simpl; [reflexivity|].
  apply String.eqb_neq in Hn; now rewrite Hn.
Qed.

Lemma flag_after_run accounts accountName evs st st' :
  accountName <> "" ->
  run accounts accountName st evs st' ->
  truthy (showMnemonic st')
  = xorb (truthy (showMnemonic st)) (Nat.odd (clicks evs)).
Proof.
  intros Hn Hrun; induction Hrun as [st|st e st1 evs st2 Hs _ IH].
  - now rewrite xorb_false_r.
  - rewrite IH. destruct e.
    + apply step_click_inv in Hs; subst st1.
      rewrite click_showMnemonic, (truthy_toggle _ _ Hn).
      unfold clicks; simpl; fold (clicks evs).
      rewrite Nat.odd_succ, <- Nat.negb_odd.
      destruct (truthy (showMnemonic st)), (Nat.odd (clicks evs));
        reflexivity.
    + now rewrite (step_timeout_showMnemonic _ _ _ _ Hs).
Qed.

(** X2. With a non-empty account name the component is revealed exactly
    after an odd number of clicks, however the completions of lookups are
    interleaved with them, and the label reads accordingly. *)
Theorem flag_parity accounts accountName evs st :
  accountName <> "" ->
  run accounts accountName (mount accounts accountName) evs st ->
  truthy (showMnemonic st) = Nat.odd (clicks evs)
  /\ showMnemonic st
     = (if Nat.odd (clicks evs) then Some accountName else None)
  /\ label st
     = (if Nat.odd (clicks evs) then "Hide mnemonic" else "Show mnemonic").
Proof.
  intros Hn Hrun.
  assert (Ht : truthy (showMnemonic st) = Nat.odd (clicks evs))
    by now rewrite (flag_after_run _ _ _ _ _ Hn Hrun).
  split; [exact Ht|]. split.
  - assert (Hr : reachable accounts accountName st) by (eexists; exact Hrun).
    rewrite <- Ht.
    destruct (reachable_showMnemonic _ _ _ Hr) as [-> | ->]; simpl;
      [reflexivity|].
    apply String.eqb_neq in Hn; now rewrite Hn.
  - unfold label; rewrite Ht. now destruct (Nat.odd (clicks evs)).
Qed.

Lemma flag_parity_witness :
  exists st,
    run scenario_accounts "alice" (mount scenario_accounts "alice")
      [Click; Click; Timeout; Click] st
    /\ showMnemonic st = Some "alice" /\ label st = "Hide mnemonic".
Proof.
  assert (Hrun : exists st,
             run scenario_accounts "alice" (mount scenario_accounts "alice")
               [Click; Click; Timeout; Click] st)
    by (eexists; apply exec_run; reflexivity).
  destruct Hrun as [st Hrun]. exists st.
  destruct (flag_parity scenario_accounts "alice" _ st
              ltac:(discriminate) Hrun) as (_ & Hshow & Hlabel).
  repeat split; assumption.
Defined.

Lemma clicks_cons e evs :
  clicks (e :: evs) = (if is_click e then 1 else 0) + clicks evs.
Proof. unfold clicks; simpl; now destruct (is_click e). Qed.

Lemma timeouts_cons e evs :
  timeouts (e :: evs) = (if is_click e then 0 else 1) + timeouts evs.
Proof. unfold timeouts; simpl; now destruct (is_click e). Qed.

Lemma lookups_after_run accounts accountName account evs st st' :
  accountName <> "" ->
  find_account accounts accountName = Some account ->
  run accounts accountName st evs st' ->
  microtasks st = [] ->
  length (timers st') + timeouts evs
  = length (timers st)
    + Nat.div2 (clicks evs + (if truthy (showMnemonic st) then 0 else 1)).
Proof.
  intros Hn Hf Hrun; induction Hrun as [st|st e st1 evs st2 Hs _ IH];
    intros Hm.
  - change (clicks []) with 0; change (timeouts []) with 0.
    destruct (truthy (showMnemonic st)); simpl; lia.
  - specialize (IH (step_microtasks _ _ _ _ _ Hs)).
    rewrite clicks_cons, timeouts_cons. destruct e; cbn [is_click].
    + apply step_click_inv in Hs; subst st1.
      destruct (truthy (showMnemonic st)) eqn:Ht.
      * rewrite (click_hide _ _ _ _ Hm Ht) in IH.
        cbn [timers showMnemonic setMnemonic setShowMnemonic truthy] in IH.
        replace (1 + clicks evs + 0) with (clicks evs + 1) by lia.
        lia.
      * rewrite (click_reveal_found _ _ _ _ _ Hm Ht Hn Hf) in IH.
        cbn [timers showMnemonic setTimeout setTimers setShowMnemonic truthy]
          in IH.
        rewrite length_app in IH. cbn [length] in IH.
        apply String.eqb_neq in Hn; rewrite Hn in IH; cbn [negb] in IH.
        replace (1 + clicks evs + 1) with (S (S (clicks evs))) by lia.
        replace (clicks evs + 0) with (clicks evs) in IH by lia.
        change (Nat.div2 (S (S (clicks evs))))
          with (S (Nat.div2 (clicks evs))).
        lia.
    + destruct (step_timeout_inv _ _ _ _ Hm Hs) as (v & rest & Ht & ->).
      cbn [timers showMnemonic setMnemonic setTimers] in IH.
      rewrite Ht; cbn [length]. rewrite (Nat.add_0_l (clicks evs)). lia.
Qed.

(** X3. No lookup is ever cancelled.  For a non-empty account name that
    has a record, every click that reveals starts one lookup and only its
    own timer ends it: the lookups in flight plus the lookups completed
    are as many as the clicks that revealed, half the clicks rounded up. *)
Theorem lookups_are_never_cancelled accounts accountName account evs st :
  accountName <> "" ->
  find_account accounts accountName = Some account ->
  run accounts accountName (mount accounts accountName) evs st ->
  length (timers st) + timeouts evs = Nat.div2 (clicks evs + 1)
  /\ Forall (eq (Mocks.mnemonic account)) (timers st).
Proof.
  intros Hn Hf Hrun. split.
  - exact (lookups_after_run _ _ _ _ _ _ Hn Hf Hrun eq_refl).
  - apply Forall_forall; intros v Hin.
    assert (Hr : reachable accounts accountName st) by (eexists; exact Hrun).
    pose proof (reachable_values _ _ _ Hr v (or_intror Hin)) as Hv.
    rewrite (fetchMnemonic_found _ _ _ Hf) in Hv. now inversion Hv.
Qed.

Lemma lookups_are_never_cancelled_witness :
  exists st,
    run scenario_accounts "alice" (mount scenario_accounts "alice")
      [Click; Click; Click; Click; Click] st
    /\ length (timers st) = 3.
Proof.
  assert (Hrun : exists st,
             run scenario_accounts "alice" (mount scenario_accounts "alice")
               [Click; Click; Click; Click; Click] st)
    by (eexists; apply exec_run; reflexivity).
  destruct Hrun as [st Hrun]. exists st. split; [exact Hrun|].
  destruct (lookups_are_never_cancelled scenario_accounts "alice"
              {| Mocks.name := "alice";
                 Mocks.mnemonic := "apple banana cherry" |}
              _ st ltac:(discriminate) eq_refl Hrun) as [Hcount _].
  change (length (timers st) + 0 = 3) in Hcount. lia.
Defined.

(** ** When the lookups in flight complete *)

Lemma settle_timers_run accounts accountName ts st :
  microtasks st = [] ->
  timers st = ts ->
  run accounts accountName st (repeat Timeout (length ts))
    (settle_timers ts st)
  /\ showMnemonic (settle_timers ts st) = showMnemonic st
  /\ timers (settle_timers ts st) = []
  /\ ((ts = [] /\ mnemonic (settle_timers ts st) = mnemonic st)
      \/ exists v, In v ts /\ mnemonic (settle_timers ts st) = Some v).
Proof.
  revert st; induction ts as [|v rest IH]; intros st Hm Ht.
  - simpl. repeat split; [apply run_nil | assumption | now left].
  - cbn [settle_timers length repeat].
    rewrite (fire_closed v rest st Hm).
    destruct (IH (setMnemonic (Some v) (setTimers rest st)) Hm eq_refl)
      as (Hrun & Hshow & Hts & Hmn).
    split; [|split; [|split]].
    + econstructor; [|exact Hrun].
      rewrite <- (fire_closed v rest st Hm). now apply step_timeout.
    + exact Hshow.
    + exact Hts.
    + right. destruct Hmn as [[-> Hmn] | (w & Hin & Hmn)].
      * exists v; split; [now left | exact Hmn].
      * exists w; split; [now right | exact Hmn].
Qed.

(** While the flag is truthy a value is stored or a lookup is in
    flight. *)
Lemma revealed_has_value accounts accountName st :
  reachable accounts accountName st ->
  truthy (showMnemonic st) = true ->
  mnemonic st <> None \/ timers st <> [].
Proof.
  intros [evs H].
  enough (Hinv : microtasks st = []
                 /\ (truthy (showMnemonic st) = true ->
                     mnemonic st <> None \/ timers st <> []))
    by apply Hinv.
  refine (run_invariant accounts accountName
            (fun s => microtasks s = []
                      /\ (truthy (showMnemonic s) = true ->
                          mnemonic s <> None \/ timers s <> []))
            _ _ _ _ H _).
  - clear; intros st e st' [Hm IH] Hstep.
    split; [exact (step_microtasks _ _ _ _ _ Hstep)|].
    intros Hafter. destruct e.
    + apply step_click_inv in Hstep; subst st'.
      rewrite click_showMnemonic in Hafter.
      destruct (truthy (showMnemonic st)) eqn:Ht.
      { rewrite (toggle_truthy _ _ Ht) in Hafter; discriminate. }
      rewrite (toggle_falsy _ _ Ht) in Hafter.
      assert (Hn : accountName <> "").
      { intros ->; discriminate. }
      destruct (find_account accounts accountName) as [account|] eqn:Hf.
      * rewrite (click_reveal_found _ _ _ _ _ Hm Ht Hn Hf); simpl.
        right. now destruct (timers st).
      * rewrite (click_reveal_missing _ _ _ _ Hm Ht Hn Hf); simpl.
        left; discriminate.
    + destruct (step_timeout_inv _ _ _ _ Hm Hstep) as (v & rest & _ & ->).
      left; discriminate.
  - split; [reflexivity | discriminate].
Qed.

Lemma completion accounts accountName st :
  reachable accounts accountName st ->
  mnemonic st <> None \/ timers st <> [] ->
  exists v st',
    resolves_with (fetchMnemonic accounts accountName) v
    /\ run accounts accountName st (repeat Timeout (length (timers st))) st'
    /\ timers st' = []
    /\ showMnemonic st' = showMnemonic st
    /\ mnemonic st' = Some v.
Proof.
  intros Hr Hsome.
  destruct (settle_timers_run accounts accountName (timers st) st
              (reachable_microtasks _ _ _ Hr) eq_refl)
    as (Hrun & Hshow & Hts & Hmn).
  destruct Hmn as [[Hnil Hmn] | (v & Hin & Hmn)].
  - destruct (mnemonic st) as [v|] eqn:Hv.
    + exists v, (settle_timers (timers st) st).
      repeat split; try assumption.
      apply (reachable_values _ _ _ Hr); left; exact Hv.
    + destruct Hsome as [Hne | Hne]; [now destruct Hne | contradiction].
  - exists v, (settle_timers (timers st) st).
    repeat split; try assumption.
    apply (reachable_values _ _ _ Hr); right; exact Hin.
Qed.

(** X4. Whatever the history, a revealed component ends up showing its
    mnemonic: from every reachable state whose flag is truthy, once the
    lookups in flight have completed, the stored value is the one the
    lookup resolves with, under the label "Hide mnemonic". *)
Theorem revealed_eventually_displays accounts accountName st :
  reachable accounts accountName st ->
  truthy (showMnemonic st) = true ->
  exists v st',
    resolves_with (fetchMnemonic accounts accountName) v
    /\ run accounts accountName st (repeat Timeout (length (timers st))) st'
    /\ timers st' = []
    /\ mnemonic st' = Some v
    /\ label st' = "Hide mnemonic"
    /\ (v <> "" ->
        output st' = [Typography body2 "Hide mnemonic";
                      Typography caption v]).
Proof.
  intros Hr Ht.
  destruct (completion _ _ _ Hr (revealed_has_value _ _ _ Hr Ht))
    as (v & st' & Hv & Hrun & Hts & Hshow & Hmn).
  assert (Hlabel : label st' = "Hide mnemonic")
    by (apply label_truthy; now rewrite Hshow).
  exists v, st'. repeat split; try assumption.
  intros Hne. now rewrite (output_caption _ _ Hne Hmn), Hlabel.
Qed.

Lemma revealed_eventually_displays_witness :
  exists v st',
    resolves_with (fetchMnemonic scenario_accounts "alice") v
    /\ run scenario_accounts "alice" alice_revealing
         (repeat Timeout (length (timers alice_revealing))) st'
    /\ timers st' = []
    /\ mnemonic st' = Some v
    /\ label st' = "Hide mnemonic"
    /\ (v <> "" ->
        output st' = [Typography body2 "Hide mnemonic";
                      Typography caption v]).
Proof.
  apply (revealed_eventually_displays scenario_accounts "alice"
           alice_revealing).
  - exists [Click]. apply run_one_click.
  - reflexivity.
Defined.

(** X5. Whatever the history, a component that is hidden while a lookup
    is in flight ends up storing the mnemonic: once the lookups have
    completed the value is present under the label "Show mnemonic", and
    it is displayed when it is not the empty string. *)
Theorem hidden_component_leaks accounts accountName st :
  reachable accounts accountName st ->
  truthy (showMnemonic st) = false ->
  timers st <> [] ->
  exists v st',
    resolves_with (fetchMnemonic accounts accountName) v
    /\ run accounts accountName st (repeat Timeout (length (timers st))) st'
    /\ timers st' = []
    /\ mnemonic st' = Some v
    /\ label st' = "Show mnemonic"
    /\ (v <> "" ->
        output st' = [Typography body2 "Show mnemonic";
                      Typography caption v]).
Proof.
  intros Hr Ht Hts.
  destruct (completion _ _ _ Hr (or_intror Hts))
    as (v & st' & Hv & Hrun & Hts' & Hshow & Hmn).
  assert (Hlabel : label st' = "Show mnemonic")
    by (apply label_falsy; now rewrite Hshow).
  exists v, st'. repeat split; try assumption.
  intros Hne. now rewrite (output_caption _ _ Hne Hmn), Hlabel.
Qed.

Lemma hidden_component_leaks_witness :
  exists v st',
    resolves_with (fetchMnemonic scenario_accounts "alice") v
    /\ run scenario_accounts "alice"
         (click scenario_accounts "alice" click_event alice_revealing)
         (repeat Timeout
            (length (timers (click scenario_accounts "alice" click_event
                               alice_revealing)))) st'
    /\ timers st' = []
    /\ mnemonic st' = Some v
    /\ label st' = "Show mnemonic"
    /\ (v <> "" ->
        output st' = [Typography body2 "Show mnemonic";
                      Typography caption v]).
Proof.
  apply (hidden_component_leaks scenario_accounts "alice"
           (click scenario_accounts "alice" click_event alice_revealing)).
  - exists [Click; Click].
    apply (run_app _ _ [Click] [Click] _ alice_revealing);
      apply run_one_click.
  - reflexivity.
  - discriminate.
Defined.

(** ** When the stored value can be trusted *)

(** X6. An account with no record cannot show the late overwrite: its
    lookup is answered inside the click that asked, so in every reachable
    state no lookup is in flight and the stored value is "n/a" while the
    flag is truthy and absent otherwise. *)
Theorem missing_record_never_leaks accounts accountName st :
  find_account accounts accountName = None ->
  reachable accounts accountName st ->
  timers st = []
  /\ mnemonic st = (if truthy (showMnemonic st) then Some "n/a" else None).
Proof.
  intros Hf [evs H].
  enough (Hinv : microtasks st = [] /\ timers st = []
                 /\ mnemonic st
                    = (if truthy (showMnemonic st) then Some "n/a" else None))
    by (split; apply Hinv).
  refine (run_invariant accounts accountName
            (fun s => microtasks s = [] /\ timers s = []
                      /\ mnemonic s
                         = (if truthy (showMnemonic s) then Some "n/a"
                            else None))
            _ _ _ _ H _).
  - clear evs st H; intros st e st' (Hm & Hts & Hmn) Hstep.
    split; [exact (step_microtasks _ _ _ _ _ Hstep)|].
    destruct e.
    + apply step_click_inv in Hstep; subst st'.
      destruct (truthy (showMnemonic st)) eqn:Ht.
      { rewrite (click_hide _ _ _ _ Hm Ht); simpl. now split. }
      destruct (String.eqb_spec accountName "") as [-> | Hn].
      { rewrite click_empty_name, Ht.
        destruct (showMnemonic st) as [s|] eqn:Hs;
          rewrite checkpoint_idle by exact Hm; simpl; now split. }
      rewrite (click_reveal_missing _ _ _ _ Hm Ht Hn Hf); simpl.
      apply String.eqb_neq in Hn; rewrite Hn. now split.
    + inversion Hstep as [|? v rest Hfire]; subst.
      rewrite Hts in Hfire; discriminate.
  - repeat split.
Qed.

Lemma missing_record_never_leaks_witness :
  timers (click scenario_accounts "ghost" click_event
            (mount scenario_accounts "ghost")) = []
  /\ mnemonic (click scenario_accounts "ghost" click_event
                 (mount scenario_accounts "ghost"))
     = (if truthy
             (showMnemonic
                (click scenario_accounts "ghost" click_event
                   (mount scenario_accounts "ghost")))
        then Some "n/a" else None).
Proof.
  apply (missing_record_never_leaks scenario_accounts "ghost"
           (click scenario_accounts "ghost" click_event
              (mount scenario_accounts "ghost"))).
  - reflexivity.
  - exists [Click]. apply run_one_click.
Defined.

Lemma caption_is_stored st text :
  In (Typography caption text) (output st) -> mnemonic st = Some text.
Proof.
  unfold output, render; simpl.
  destruct (mnemonic st) as [s|]; simpl.
  - destruct (String.eqb_spec s "") as [-> | Hs]; simpl.
    + intros [H | []]; discriminate.
    + intros [H | [[= <-] | []]]; [discriminate | reflexivity].
  - intros [H | []]; discriminate.
Qed.

(** X7. The caption never shows the mnemonic of another account: in
    every reachable state a displayed caption is the mnemonic of the
    first record that carries the account name, or the string "n/a" when
    the table has no such record. *)
Theorem caption_is_own_mnemonic accounts accountName st text :
  reachable accounts accountName st ->
  In (Typography caption text) (output st) ->
  (exists account,
      find_account accounts accountName = Some account
      /\ In account accounts
      /\ Mocks.name account = accountName
      /\ text = Mocks.mnemonic account)
  \/ ((forall account,
          In account accounts -> Mocks.name account <> accountName)
      /\ text = "n/a").
Proof.
  intros Hr Hin.
  pose proof (reachable_values _ _ _ Hr text
                (or_introl (caption_is_stored _ _ Hin))) as Hv.
  destruct (find_account accounts accountName) as [account|] eqn:Hf.
  - left. exists account.
    destruct (find_account_some _ _ _ Hf) as [Hmem Hname].
    rewrite (fetchMnemonic_found _ _ _ Hf) in Hv.
    inversion Hv; subst. repeat split; assumption.
  - right. rewrite (fetchMnemonic_missing _ _ Hf) in Hv.
    inversion Hv; subst.
    split; [now apply find_account_none | reflexivity].
Qed.

Lemma caption_is_own_mnemonic_witness :
  (exists account,
      find_account scenario_accounts "alice" = Some account
      /\ In account scenario_accounts
      /\ Mocks.name account = "alice"
      /\ "apple banana cherry" = Mocks.mnemonic account)
  \/ ((forall account,
          In account scenario_accounts -> Mocks.name account <> "alice")
      /\ "apple banana cherry" = "n/a").
Proof.
  apply (caption_is_own_mnemonic scenario_accounts "alice"
           (fire "apple banana cherry" [] alice_revealing)).
  - exists [Click; Timeout].
    apply (run_app _ _ [Click] [Timeout] _ alice_revealing).
    + apply run_one_click.
    + econstructor; [now apply step_timeout | apply run_nil].
  - right; now left.
Defined.

(** X8. The late overwrite needs a click made while a lookup is in
    flight.  For a user who clicks only when no lookup is pending, a
    hidden component stores no value and waits for none, and at most one
    lookup is ever in flight. *)
Theorem patient_user_sees_no_leak accounts accountName st :
  patient accounts accountName st ->
  reachable accounts accountName st
  /\ length (timers st) <= 1
  /\ (truthy (showMnemonic st) = false ->
      mnemonic st = None /\ timers st = []
      /\ output st = [Typography body2 "Show mnemonic"]).
Proof.
  intros Hp.
  enough (Hinv : reachable accounts accountName st
                 /\ length (timers st) <= 1
                 /\ (truthy (showMnemonic st) = false ->
                     mnemonic st = None /\ timers st = [])).
  { destruct Hinv as (Hr & Hlen & Hhidden).
    split; [exact Hr | split; [exact Hlen|]].
    intros Ht. destruct (Hhidden Ht) as [Hmn Hts].
    split; [exact Hmn | split; [exact Hts|]].
    now apply output_hidden_empty. }
  induction Hp as [|st e Hp (Hr & Hlen & IH) Hts
                   |st st' Hp (Hr & Hlen & IH) Hstep].
  - split; [exists []; apply run_nil|].
    split; [simpl; lia | now split].
  - pose proof (reachable_microtasks _ _ _ Hr) as Hm.
    split.
    { destruct Hr as [evs Hrun]. exists (evs ++ [Click])%list.
      apply (run_app _ _ _ _ _ _ _ Hrun).
      econstructor; [apply step_click | apply run_nil]. }
    destruct (truthy (showMnemonic st)) eqn:Ht.
    { rewrite (click_hide _ _ _ _ Hm Ht); simpl.
      rewrite Hts; simpl. split; [lia | now split]. }
    destruct (IH eq_refl) as [Hmn _].
    destruct (String.eqb_spec accountName "") as [-> | Hn].
    { rewrite (click_any_event accounts "" e click_event st).
      rewrite click_empty_name, Ht.
      destruct (showMnemonic st) as [s|] eqn:Hs;
        rewrite checkpoint_idle by exact Hm; simpl; rewrite Hts;
        (split; [simpl; lia | now split]). }
    destruct (find_account accounts accountName) as [account|] eqn:Hf.
    + rewrite (click_reveal_found _ _ _ _ _ Hm Ht Hn Hf); simpl.
      rewrite Hts; simpl. apply String.eqb_neq in Hn; rewrite Hn; simpl.
      split; [lia | discriminate].
    + rewrite (click_reveal_missing _ _ _ _ Hm Ht Hn Hf); simpl.
      rewrite Hts; simpl. apply String.eqb_neq in Hn; rewrite Hn; simpl.
      split; [lia | discriminate].
  - pose proof (reachable_microtasks _ _ _ Hr) as Hm.
    split.
    { destruct Hr as [evs Hrun]. exists (evs ++ [Timeout])%list.
      apply (run_app _ _ _ _ _ _ _ Hrun).
      econstructor; [exact Hstep | apply run_nil]. }
    destruct (step_timeout_inv _ _ _ _ Hm Hstep) as (v & rest & Hts & ->).
    simpl. rewrite Hts in Hlen; simpl in Hlen.
    split; [lia|].
    intros Ht. destruct (IH Ht) as [_ Hnil].
    rewrite Hnil in Hts; discriminate.
Qed.

Lemma patient_user_sees_no_leak_witness :
  mnemonic (click scenario_accounts "alice" click_event
              (fire "apple banana cherry" [] alice_revealing)) = None
  /\ timers (click scenario_accounts "alice" click_event
               (fire "apple banana cherry" [] alice_revealing)) = [].
Proof.
  destruct (patient_user_sees_no_leak scenario_accounts "alice"
              (click scenario_accounts "alice" click_event
                 (fire "apple banana cherry" [] alice_revealing)))
    as (_ & _ & Hhidden).
  - apply patient_click; [|reflexivity].
    apply (patient_timeout _ _ alice_revealing);
      [|now apply step_timeout].
    apply (patient_click scenario_accounts "alice"
             (mount scenario_accounts "alice") click_event);
      [apply patient_mount | reflexivity].
  - destruct (Hhidden eq_refl) as (Hmn & Hts & _). now split.
Defined.
